(** * Shallow embedding of the frame pipeline of FaultDetection

    The video paths of [helper.py] ([play_stored_video], [play_webcam],
    [play_rtsp_stream], [play_youtube_video]) share one read/display loop
    wrapped in a [try]/[except]; [_display_detected_frames] resizes each frame
    and calls the YOLO model.  The zip batch path of [apps/upload2.py] runs
    the detector over the image entries of an archive and lays the results
    out in a 3-column grid.

    External collaborators (OpenCV's capture, the YOLO model, pytubefix, PIL)
    are Section variables: every theorem holds for all of them. *)

From Stdlib Require Import List String Ascii ZArith QArith Qround Bool Lia.
Import ListNotations.

Local Open Scope list_scope.

(** ** Frames and the resize of [_display_detected_frames] *)

(** A decoded frame: its size and an identifier standing for its pixels. *)
Record frame := mkFrame { fr_width : Z; fr_height : Z; fr_id : nat }.

(** [cv2.resize(image, (w, h))]: same content, new size. *)
Definition cv2_resize (img : frame) (w h : Z) : frame :=
  {| fr_width := w; fr_height := h; fr_id := fr_id img |}.

(** Python's [int(x)] on a float: truncation towards zero.  [9 / 16] is the
    float 0.5625, which is exact in binary, and so is [720 * 0.5625]; the
    float arithmetic is therefore the rational one. *)
Definition py_int (q : Q) : Z :=
  if Qle_bool 0 q then Qfloor q else (- Qfloor (- q))%Z.

(** [int(720 * (9 / 16))], line 57 of helper.py. *)
Definition target_height : Z := py_int (inject_Z 720 * (9 # 16)).

(** [round(720 * 9/16)] of the spec (half-up rounding). *)
Definition spec_round (q : Q) : Z := Qfloor (q + (1 # 2)).

(** ** Inference requests *)

(** [model.track(image, conf=conf, persist=True, tracker=tracker)] or
    [model.predict(image, conf=conf)]. *)
Inductive request :=
| ReqTrack (img : frame) (conf : Q) (persist : bool) (tracker : option string)
| ReqPredict (img : frame) (conf : Q).

Definition req_frame (r : request) : frame :=
  match r with ReqTrack i _ _ _ => i | ReqPredict i _ => i end.

Definition req_conf (r : request) : Q :=
  match r with ReqTrack _ c _ _ => c | ReqPredict _ c => c end.

(** ** OpenCV capture *)

(** What a read of the capture finds: a frame, or a transport failure. *)
Inductive read_item := RFrame (f : frame) | RFail.

(** [cv2.VideoCapture] takes a device index or a path / URL. *)
Inductive descriptor := DIndex (n : nat) | DPath (p : string).

(** The capture object: [isOpened()], the reads still to come, and the
    number of [release()] calls made on it. *)
Record capture := mkCapture {
  cap_opened : bool;
  cap_items : list read_item;
  cap_releases : nat }.

(** [vid_cap.read()]: [Some image] for [(True, image)], [None] for
    [(False, None)] (end of stream, read failure, or a closed capture). *)
Definition cap_read (c : capture) : option frame * capture :=
  if cap_opened c then
    match cap_items c with
    | RFrame f :: rest => (Some f, mkCapture true rest (cap_releases c))
    | RFail :: rest => (None, mkCapture true rest (cap_releases c))
    | [] => (None, c)
    end
  else (None, c).

(** [vid_cap.release()]. *)
Definition cap_release (c : capture) : capture :=
  mkCapture false (cap_items c) (S (cap_releases c)).

(** A capture that never opened. *)
Definition closed_capture : capture := mkCapture false [] 0.

(** ** Sources (settings.py) *)

Inductive source :=
| SrcStored (name : string)
| SrcWebcam
| SrcRtsp (url : string)
| SrcYoutube (url : string).

(** [VIDEOS_DICT]: [ROOT / 'videos' / 'tower.mp4'] rendered by [str]. *)
Definition VIDEOS_DICT : list (string * string) :=
  [("Tower"%string, "videos/tower.mp4"%string)].

Definition WEBCAM_PATH : nat := 0.

(** [dict.get(key)]. *)
Fixpoint dict_get (d : list (string * string)) (k : string) : option string :=
  match d with
  | [] => None
  | (k', v) :: d' => if String.eqb k k' then Some v else dict_get d' k
  end.

(** [str(x)] for an optional path. *)
Definition py_str_opt (o : option string) : string :=
  match o with Some p => p | None => "None"%string end.

(** The message of the [except] branch of each [play_*] function. *)
Definition error_prefix (s : source) : string :=
  match s with
  | SrcRtsp _ => "Error loading RTSP stream: "
  | _ => "Error loading video: "
  end%string.

(** Message of the [AttributeError] raised by [stream.url] when
    [.first()] returned [None]. *)
Definition none_url_error : string :=
  "'NoneType' object has no attribute 'url'"%string.

(** [display_tracker_options]: [pick label options] is the value returned
    by [st.radio(label, options)]. *)
Definition display_tracker_options (pick : string -> list string -> string)
  : bool * option string :=
  let display_tracker := pick "Display Tracker"%string ["Yes"; "No"]%string in
  let is_display_tracker :=
    if string_dec display_tracker "Yes"%string then true else false in
  if is_display_tracker then
    let tracker_type :=
      pick "Tracker"%string ["bytetrack.yaml"; "botsort.yaml"]%string in
    (is_display_tracker, Some tracker_type)
  else (is_display_tracker, None).

Section Pipeline.

(** The YOLO model object: its internal state (the tracker persisted by
    [persist=True]) and one call [model.track]/[model.predict] followed by
    [res[0].plot()]; [inl msg] is an exception raised by the call. *)
Variable mstate : Type.
Variable engine : mstate -> request -> string + (frame * mstate).

(** What [cv2.VideoCapture(d)] finds behind a descriptor: the reads it will
    deliver, or [None] when it cannot open it ([isOpened()] is false;
    OpenCV's constructor raises no exception). *)
Variable world : descriptor -> option (list read_item).

(** [YouTube(url).streams.filter(file_extension="mp4", res=720).first()]:
    an exception, or the URL of the stream found ([None] for no stream). *)
Variable yt_resolve : string -> string + option string.

Definition cv2_VideoCapture (d : descriptor) : capture :=
  match world d with
  | Some items => mkCapture true items 0
  | None => closed_capture
  end.

(** The state threaded through one run: the capture, the model, the frames
    shown by [st_frame.image], the inference calls made, the loop
    iterations. *)
Record lstate := mkLState {
  ls_cap : capture;
  ls_mst : mstate;
  ls_emitted : list frame;
  ls_requests : list request;
  ls_iters : nat }.

Inductive step_res :=
| Normal (s : lstate)
| Raised (e : string) (s : lstate).

(** [_display_detected_frames(conf, model, st_frame, image,
    is_display_tracking, tracker)]. *)
Definition display_detected_frames (conf : Q) (is_display_tracking : bool)
    (tracker : option string) (image : frame) (s : lstate) : step_res :=
  let image := cv2_resize image 720 target_height in
  let req :=
    if is_display_tracking then ReqTrack image conf true tracker
    else ReqPredict image conf in
  let s := mkLState (ls_cap s) (ls_mst s) (ls_emitted s)
                    (ls_requests s ++ [req]) (ls_iters s) in
  match engine (ls_mst s) req with
  | inl e => Raised e s
  | inr (detected_image, m') =>
      Normal (mkLState (ls_cap s) m' (ls_emitted s ++ [detected_image])
                       (ls_requests s) (ls_iters s))
  end.

(** How the [while] loop was left. *)
Inductive loop_exit :=
| ExitBreak             (* read failed: [release()], [break] *)
| ExitCond              (* [isOpened()] false at the loop head *)
| ExitRaise (e : string) (* an exception left the loop *)
| ExitFuel.             (* fuel exhausted (never, see [video_loop_fuel]) *)

(** The loop shared by the four [play_*] functions:
<<
    while vid_cap.isOpened():
        success, image = vid_cap.read()
        if success:
            _display_detected_frames(conf, model, st_frame, image, ...)
        else:
            vid_cap.release()
            break
>> *)
Fixpoint video_loop (fuel : nat) (conf : Q) (trk : bool)
    (tracker : option string) (s : lstate) : loop_exit * lstate :=
  match fuel with
  | O => (ExitFuel, s)
  | S fuel' =>
      if cap_opened (ls_cap s) then
        let '(image, c) := cap_read (ls_cap s) in
        let s := mkLState c (ls_mst s) (ls_emitted s) (ls_requests s)
                          (S (ls_iters s)) in
        match image with
        | Some img =>
            match display_detected_frames conf trk tracker img s with
            | Normal s' => video_loop fuel' conf trk tracker s'
            | Raised e s' => (ExitRaise e, s')
            end
        | None =>
            (ExitBreak, mkLState (cap_release c) (ls_mst s) (ls_emitted s)
                                 (ls_requests s) (ls_iters s))
        end
      else (ExitCond, s)
  end.

(** The [try] block of each [play_*] function up to [cv2.VideoCapture]:
    the descriptor, or an exception raised while resolving it. *)
Definition open_source (src : source) : string + descriptor :=
  match src with
  | SrcStored name => inr (DPath (py_str_opt (dict_get VIDEOS_DICT name)))
  | SrcWebcam => inr (DIndex WEBCAM_PATH)
  | SrcRtsp url => inr (DPath url)
  | SrcYoutube url =>
      match yt_resolve url with
      | inl e => inl e
      | inr None => inl none_url_error
      | inr (Some u) => inr (DPath u)
      end
  end.

(** What one press of the "Detect Objects" button produces. *)
Record run_result := mkRun {
  r_state : lstate;
  r_exit : loop_exit;
  r_diags : list string;     (* [st.sidebar.error] messages *)
  r_opened : bool }.         (* whether [cv2.VideoCapture] opened *)

Definition init_state (m0 : mstate) (c : capture) : lstate :=
  mkLState c m0 [] [] 0.

(** The body of [if st.sidebar.button(...)] of [play_stored_video],
    [play_webcam], [play_rtsp_stream] and [play_youtube_video];
    [opts] is the pair returned by [display_tracker_options]. The fuel
    bounds the [while] loop: each iteration but the last consumes a read. *)
Definition play (src : source) (conf : Q) (opts : bool * option string)
    (m0 : mstate) : run_result :=
  let '(is_display_tracker, tracker) := opts in
  match open_source src with
  | inl e =>
      mkRun (init_state m0 closed_capture) (ExitRaise e)
            [error_prefix src ++ e]%string false
  | inr d =>
      let vid_cap := cv2_VideoCapture d in
      let '(ex, s) :=
        video_loop (S (List.length (cap_items vid_cap))) conf is_display_tracker
                   tracker (init_state m0 vid_cap) in
      mkRun s ex
            (match ex with
             | ExitRaise e => [error_prefix src ++ e]%string
             | _ => []
             end)
            (cap_opened vid_cap)
  end.

(** The request [_display_detected_frames] builds for one frame. *)
Definition request_for (conf : Q) (trk : bool) (tracker : option string)
    (img : frame) : request :=
  if trk then ReqTrack (cv2_resize img 720 target_height) conf true tracker
  else ReqPredict (cv2_resize img 720 target_height) conf.

(** The model answering a sequence of calls without raising: the plotted
    frames and the final model state, or [None] when one call raises. *)
Fixpoint engine_all (m : mstate) (rs : list request)
  : option (list frame * mstate) :=
  match rs with
  | [] => Some ([], m)
  | r :: rs' =>
      match engine m r with
      | inl _ => None
      | inr (img, m') =>
          match engine_all m' rs' with
          | Some (imgs, m'') => Some (img :: imgs, m'')
          | None => None
          end
      end
  end.

End Pipeline.

Arguments ls_cap {mstate}. Arguments ls_mst {mstate}.
Arguments ls_emitted {mstate}. Arguments ls_requests {mstate}.
Arguments ls_iters {mstate}. Arguments mkLState {mstate}.
Arguments Normal {mstate}. Arguments Raised {mstate}.
Arguments r_state {mstate}. Arguments r_exit {mstate}.
Arguments r_diags {mstate}. Arguments r_opened {mstate}.
Arguments mkRun {mstate}.

(** ** The zip batch path of apps/upload2.py *)

(** [float(st.sidebar.slider("Select Model Confidence", 25, 100, 40)) / 100]
    for the slider value [v]. *)
Definition slider_confidence (v : Z) : Q := inject_Z v / inject_Z 100.

(** [str.lower] on the ASCII letters. *)
Definition ascii_lower (c : ascii) : ascii :=
  let n := nat_of_ascii c in
  if (65 <=? n) && (n <=? 90) then ascii_of_nat (n + 32) else c.

Fixpoint str_lower (s : string) : string :=
  match s with
  | EmptyString => EmptyString
  | String c s' => String (ascii_lower c) (str_lower s')
  end.

(** [s.endswith(suf)]. *)
Definition ends_with (suf s : string) : bool :=
  let n := String.length s in
  let k := String.length suf in
  (k <=? n) && String.eqb (substring (n - k) k s) suf.

Definition IMAGE_EXTS : list string :=
  [".jpg"; ".jpeg"; ".png"; ".bmp"; ".webp"]%string.

(** [file_name.lower().endswith((".jpg", ".jpeg", ".png", ".bmp", ".webp"))]. *)
Definition has_image_ext (file_name : string) : bool :=
  existsb (fun e => ends_with e (str_lower file_name)) IMAGE_EXTS.

Section Batch.

(** [PIL.Image.open(io.BytesIO(file_data))], the detector call
    [detection_model.predict(img, conf=c)] followed by [res[0].plot()], and
    the channel reversal [[:, :, ::-1]]; [inl msg] is an exception. *)
Variable pil_image : Type.
Variable pil_open : list Byte.byte -> string + pil_image.
Variable predict : pil_image -> Q -> string + frame.
Variable flip_channels : frame -> frame.

(** The lists built by the [for] loop over the extracted files: the names
    entering the [try] block, the [predict] calls (file name and
    confidence), [detected_images], and the [st.error] messages. *)
Record bstate := mkBState {
  b_attempted : list string;
  b_calls : list (string * Q);
  b_detected : list (string * frame);
  b_errors : list string }.

Definition b_error (b : bstate) (msg : string) : bstate :=
  mkBState (b_attempted b) (b_calls b) (b_detected b) (b_errors b ++ [msg]).

Definition process_error (file_name ex : string) : string :=
  ("Error processing image " ++ file_name ++ ": " ++ ex)%string.

(** [for file_name, file_data in extracted_files: ...]. *)
Fixpoint detect_loop (confidence : Q) (files : list (string * list Byte.byte))
    (b : bstate) : bstate :=
  match files with
  | [] => b
  | (file_name, file_data) :: rest =>
      let b :=
        if has_image_ext file_name then
          let b := mkBState (b_attempted b ++ [file_name]) (b_calls b)
                            (b_detected b) (b_errors b) in
          match pil_open file_data with
          | inl ex => b_error b (process_error file_name ex)
          | inr uploaded_image =>
              let b := mkBState (b_attempted b)
                                (b_calls b ++ [(file_name, confidence)])
                                (b_detected b) (b_errors b) in
              match predict uploaded_image confidence with
              | inl ex => b_error b (process_error file_name ex)
              | inr plot =>
                  mkBState (b_attempted b) (b_calls b)
                    (b_detected b ++ [(file_name, flip_channels plot)])
                    (b_errors b)
              end
          end
        else b in
      detect_loop confidence rest b
  end.

End Batch.

(** One cell of the collage. *)
Inductive cell := CellImage (name : string) (img : frame) | CellEmpty.

(** The body of the inner loop of the collage:
<<
    index = i * grid_size + j
    if index < num_images:
        file_name, detected_image = detected_images[index]
        ... st.image(detected_image, caption=...)
    else:
        ... st.write("")
>> *)
Definition grid_cell (detected_images : list (string * frame)) (index : nat)
  : cell :=
  if (index <? List.length detected_images)%nat then
    match nth_error detected_images index with
    | Some (file_name, detected_image) => CellImage file_name detected_image
    | None => CellEmpty
    end
  else CellEmpty.

(** The 3x3 collage: [rows = (num_images + grid_size - 1) // grid_size],
    then [for i in range(rows): for j in range(grid_size): ...]. *)
Definition grid_cells (detected_images : list (string * frame)) : list cell :=
  let grid_size := 3%nat in
  let num_images := List.length detected_images in
  let rows := ((num_images + grid_size - 1) / grid_size)%nat in
  flat_map
    (fun i =>
       map (fun j => grid_cell detected_images (i * grid_size + j)%nat)
           (seq 0 grid_size))
    (seq 0 rows)%nat.

(** The cell showing one detected image. *)
Definition cell_of (p : string * frame) : cell := CellImage (fst p) (snd p).

(** The images shown by [st.image], in display order. *)
Fixpoint shown_images (cells : list cell) : list (string * frame) :=
  match cells with
  | [] => []
  | CellImage n im :: cs => (n, im) :: shown_images cs
  | CellEmpty :: cs => shown_images cs
  end.

Record batch_result := mkBatch {
  ba_loop : bstate;
  ba_cells : list cell;
  ba_errors : list string }.

Section BatchApp.

Variable pil_image : Type.
Variable pil_open : list Byte.byte -> string + pil_image.
Variable predict : pil_image -> Q -> string + frame.
Variable flip_channels : frame -> frame.

(** The [if zip_file:] branch of [app()] for the slider value [v]; [zip] is
    what [extract_zip_in_memory] returns, or the exception it raises. *)
Definition batch_app (v : Z) (zip : string + list (string * list Byte.byte))
  : batch_result :=
  let confidence := slider_confidence v in
  let b0 := mkBState [] [] [] [] in
  match zip with
  | inl ex =>
      mkBatch b0 []
        [("An error occurred while extracting ZIP file: " ++ ex)%string]
  | inr extracted_files =>
      let b := detect_loop pil_image pil_open predict flip_channels
                           confidence extracted_files b0 in
      mkBatch b
        (match b_detected b with
         | [] => []
         | _ => grid_cells (b_detected b)
         end)
        (b_errors b)
  end.

(** Spec-side reading of one archive entry: skipped ([None]), a diagnostic
    ([Some (inl msg)]) or one detected image ([Some (inr _)]). *)
Definition entry_outcome (confidence : Q) (e : string * list Byte.byte)
  : option (string + (string * frame)) :=
  let '(n, d) := e in
  if has_image_ext n then
    match pil_open d with
    | inl ex => Some (inl (process_error n ex))
    | inr im =>
        match predict im confidence with
        | inl ex => Some (inl (process_error n ex))
        | inr plot => Some (inr (n, flip_channels plot))
        end
    end
  else None.

Definition entry_errors (conf : Q) (e : string * list Byte.byte)
  : list string :=
  match entry_outcome conf e with Some (inl m) => [m] | _ => [] end.

Definition entry_images (conf : Q) (e : string * list Byte.byte)
  : list (string * frame) :=
  match entry_outcome conf e with Some (inr x) => [x] | _ => [] end.

End BatchApp.

(** ** The vector-data page of apps/upload.py *)

(** The double-quote character. *)
Definition dq : ascii := "034"%char.
Definition dqs : string := String dq EmptyString.

(** The literal head [<img src=] followed by a double quote, with which
    the pattern of [extract_image_link] starts. *)
Definition img_open : string := ("<img src=" ++ dqs)%string.

(** [s] with the prefix [p] removed, when [s] starts with [p]. *)
Fixpoint strip_prefix (p s : string) : option string :=
  match p, s with
  | EmptyString, _ => Some s
  | String a p', String b s' => if Ascii.eqb a b then strip_prefix p' s' else None
  | String _ _, EmptyString => None
  end.

(** The group after the head (one or more non-quote characters, then a
    quote): the characters up to the first quote, when there is one (the
    negated class also matches newlines). *)
Fixpoint take_url (s : string) : option string :=
  match s with
  | EmptyString => None
  | String c s' =>
      if Ascii.eqb c dq then Some EmptyString
      else option_map (String c) (take_url s')
  end.

(** A match of the pattern of [extract_image_link] starting at the head of
    [s]: the greedy class stops at the first quote, and the group must be
    non-empty. *)
Definition img_match_at (s : string) : option string :=
  match strip_prefix img_open s with
  | Some rest =>
      match take_url rest with
      | Some (String c u) => Some (String c u)
      | _ => None
      end
  | None => None
  end.

(** [extract_image_link(description)]: [re.search] tries each start
    position from the left; [group(1)] of the first match, else [None]. *)
Fixpoint extract_image_link (description : string) : option string :=
  match description with
  | EmptyString => img_match_at description
  | String _ rest =>
      match img_match_at description with
      | Some link => Some link
      | None => extract_image_link rest
      end
  end.

(** [popup_content] of a marker in [app()]: when [image_link] is not
    empty, an image tag with the link as its source, width 300 and height
    auto, followed by a line break; then the description, a line break and
    the name in bold. *)
Definition popup_content (image_link description name : string) : string :=
  ((match image_link with
    | EmptyString => EmptyString
    | _ => img_open ++ image_link ++ dqs ++ " width=" ++ dqs ++ "300" ++ dqs
             ++ " height=" ++ dqs ++ "auto" ++ dqs ++ "/><br>"
    end)
   ++ description ++ "<br><strong>" ++ name ++ "</strong>")%string.

(** [str.rfind(c)]: index of the last occurrence, [-1] when absent. *)
Fixpoint rfind_from (c : ascii) (s : string) (i : nat) (acc : Z) : Z :=
  match s with
  | EmptyString => acc
  | String a s' =>
      rfind_from c s' (S i) (if Ascii.eqb a c then Z.of_nat i else acc)
  end.

Definition rfind (c : ascii) (s : string) : Z := rfind_from c s 0 (-1).

(** The [while] loop of [genericpath._splitext]: is there a character
    other than '.' at an index in [[filenameIndex, dotIndex)]? *)
Fixpoint skip_leading_dots (p : string) (filenameIndex : nat) (fuel : nat)
    (dotIndex : nat) : bool :=
  match fuel with
  | O => false
  | S fuel' =>
      if (filenameIndex <? dotIndex)%nat then
        if negb (String.eqb (substring filenameIndex 1 p) ".")
        then true
        else skip_leading_dots p (S filenameIndex) fuel' dotIndex
      else false
  end.

(** [os.path.splitext(p)] on POSIX ([sep = '/'], [extsep = '.']). *)
Definition splitext (p : string) : string * string :=
  let sepIndex := rfind "/" p in
  let dotIndex := rfind "." p in
  if (sepIndex <? dotIndex)%Z then
    let d := Z.to_nat dotIndex in
    if skip_leading_dots p (Z.to_nat (sepIndex + 1)) d d
    then (substring 0 d p, substring d (String.length p - d) p)
    else (p, EmptyString)
  else (p, EmptyString).

(** [os.path.join(a, b)] on POSIX, for two components. *)
Definition path_join (a b : string) : string :=
  match b with
  | String "/" _ => b
  | _ =>
      if String.eqb a "" || ends_with "/" a then (a ++ b)%string
      else (a ++ "/" ++ b)%string
  end.

(** [save_uploaded_file(file_content, file_name)]: the path it writes to,
    for the temporary directory [tmp] and the fresh [uuid4] string. *)
Definition save_uploaded_path (tmp uuid file_name : string) : string :=
  let '(_, file_extension) := splitext file_name in
  path_join tmp (uuid ++ file_extension).

(** The three readers of the loading loop of [app()]. *)
Inductive reader := ReadGeoJSON | ReadKML | ReadGeneric.

(** The branch taken on [file_path.lower()]. *)
Definition route (file_path : string) : reader :=
  let lp := str_lower file_path in
  if ends_with ".geojson" lp || ends_with ".json" lp then ReadGeoJSON
  else if ends_with ".kml" lp then ReadKML
  else ReadGeneric.

(** An uploaded file: its name, its bytes, and the [uuid4] string drawn
    when [save_uploaded_file] writes it. *)
Record uploaded := mkUploaded {
  up_name : string;
  up_content : list Byte.byte;
  up_uuid : string }.

Definition no_valid_error : string := "No valid GeoDataFrames were loaded."%string.

Definition load_error (name e : string) : string :=
  ("Failed to load the file " ++ name ++ ": " ++ e)%string.

(** What the page shows after the uploads: the layers added to the map, the
    [st.error] messages, and whether a map with layers is drawn. *)
Record page_result (gdf : Type) := mkPage {
  pg_layers : list (gdf * string);
  pg_errors : list string;
  pg_layered_map : bool }.

Arguments mkPage {gdf}. Arguments pg_layers {gdf}.
Arguments pg_errors {gdf}. Arguments pg_layered_map {gdf}.

Section VectorPage.

(** The reader applied to a saved file ([json.load] then
    [GeoDataFrame.from_features], or [gpd.read_file] with or without the
    KML driver): a GeoDataFrame or an exception. *)
Variable gdf : Type.
Variable load : reader -> string -> list Byte.byte -> string + gdf.
(** [tempfile.gettempdir()]. *)
Variable tmp : string.
(** The centroid computation on the concatenated frames: an exception, or
    the map centre (the map drawing itself has no observable result here). *)
Variable centroid : list gdf -> string + unit.

(** [for file in data: ...] of [app()], with its [try]/[except]/[continue]. *)
Fixpoint load_loop (data : list uploaded) (all_gdfs : list (gdf * string))
    (errors : list string) : list (gdf * string) * list string :=
  match data with
  | [] => (all_gdfs, errors)
  | file :: rest =>
      let file_path := save_uploaded_path tmp (up_uuid file) (up_name file) in
      let layer_name := fst (splitext (up_name file)) in
      match load (route file_path) file_path (up_content file) with
      | inl e => load_loop rest all_gdfs (errors ++ [load_error (up_name file) e])
      | inr g => load_loop rest (all_gdfs ++ [(g, layer_name)]) errors
      end
  end.

(** The [if data:] branch of [app()] up to the markers. *)
Definition vector_page (data : list uploaded) : page_result gdf :=
  match data with
  | [] => mkPage [] [] false
  | _ =>
      let '(all_gdfs, errors) := load_loop data [] [] in
      match all_gdfs with
      | [] => mkPage [] (errors ++ [no_valid_error]) false
      | _ =>
          match centroid (map fst all_gdfs) with
          | inl e =>
              mkPage all_gdfs
                (errors ++ [("Failed to calculate centroids: " ++ e)%string])
                false
          | inr _ => mkPage all_gdfs errors true
          end
      end
  end.

(** Spec-side reading of one upload: its layer, or its error message. *)
Definition upload_outcome (file : uploaded) : string + (gdf * string) :=
  let file_path := save_uploaded_path tmp (up_uuid file) (up_name file) in
  match load (route file_path) file_path (up_content file) with
  | inl e => inl (load_error (up_name file) e)
  | inr g => inr (g, fst (splitext (up_name file)))
  end.

Definition upload_layers (file : uploaded) : list (gdf * string) :=
  match upload_outcome file with inr x => [x] | inl _ => [] end.

Definition upload_errors (file : uploaded) : list string :=
  match upload_outcome file with inl m => [m] | inr _ => [] end.

End VectorPage.

(** ** Concrete scenarios *)

Module Scenario.

(** A model that answers every frame with the frame it was given. *)
Definition eng_ok (m : unit) (r : request) : string + (frame * unit) :=
  inr (req_frame r, m).

(** A model that raises on the frame with identifier 5 only. *)
Definition eng_fault5 (m : unit) (r : request) : string + (frame * unit) :=
  if Nat.eqb (fr_id (req_frame r)) 5 then inl "engine fault"%string
  else inr (req_frame r, m).

(** Ten full-HD frames numbered 1 to 10. *)
Definition ten_frames : list frame :=
  map (fun n => mkFrame 1920 1080 n) (seq 1 10).

Definition resized (fs : list frame) : list frame :=
  map (fun f => cv2_resize f 720 405) fs.

(** The stored video "Tower" has ten readable frames; nothing else opens. *)
Definition stored_world (d : descriptor) : option (list read_item) :=
  match d with
  | DPath p =>
      if String.eqb p "videos/tower.mp4"%string
      then Some (map RFrame ten_frames) else None
  | DIndex _ => None
  end.

Definition no_youtube (u : string) : string + option string := inr None.

Definition bytetrack : option string := Some "bytetrack.yaml"%string.

Definition fault_run : run_result unit :=
  play unit eng_fault5 stored_world no_youtube (SrcStored "Tower")
       (2 # 5) (true, bytetrack) tt.

(** An archive: an upper-case JPEG, a text file, a PNG PIL cannot open, a
    WebP. *)
Definition pil_open_demo (b : list Byte.byte) : string + nat :=
  match b with
  | [] => inl "cannot identify image file"%string
  | _ => inr (List.length b)
  end.

Definition predict_demo (im : nat) (c : Q) : string + frame :=
  inr (mkFrame 640 640 im).

Definition demo_zip : list (string * list Byte.byte) :=
  [("a.JPG"%string, [Byte.x00]); ("notes.txt"%string, [Byte.x01]);
   ("b.png"%string, []); ("c.webp"%string, [Byte.x01; Byte.x02])].

(** The stored video "Tower" whose fourth read fails, with frames after it. *)
Definition flaky_world (d : descriptor) : option (list read_item) :=
  match d with
  | DPath p =>
      if String.eqb p "videos/tower.mp4"%string
      then Some (map RFrame (firstn 3 ten_frames) ++
                 RFail :: map RFrame (skipn 3 ten_frames))
      else None
  | DIndex _ => None
  end.

(** pytubefix raising on every URL. *)
Definition yt_raises (u : string) : string + option string :=
  inl "HTTP Error 410: Gone"%string.

Definition upload_uuid : string := "3f2c9a1e-8b7d-4c6a-9e5f-0a1b2c3d4e5f".

(** Three uploads: a GeoJSON file, a KML file and a MapInfo table. *)
Definition demo_uploads : list uploaded :=
  [mkUploaded "Roads.GeoJSON" [Byte.x7b; Byte.x7d] upload_uuid;
   mkUploaded "poles.kml" [Byte.x3c] "0c5d7e9f-1a2b-4c3d-8e4f-5a6b7c8d9e0f";
   mkUploaded "sites.tab" [] "7e6d5c4b-3a29-4817-a6f5-e4d3c2b1a090"].

(** A loader that reads GeoJSON only; a frame is its byte count here. *)
Definition load_demo (rd : reader) (path : string) (b : list Byte.byte)
  : string + nat :=
  match rd with
  | ReadGeoJSON => inr (List.length b)
  | ReadKML => inl "KML parse error"%string
  | ReadGeneric => inl "unsupported format"%string
  end.

Definition centroid_demo (gs : list nat) : string + unit := inr tt.

Definition demo_link : string := "http://example.org/tower7.png".

End Scenario.

(** ** Facts about the video loop *)

Section PipelineFacts.

Variable mstate : Type.
Variable engine : mstate -> request -> string + (frame * mstate).
Variable world : descriptor -> option (list read_item).
Variable yt_resolve : string -> string + option string.

Local Open Scope nat_scope.

Local Abbreviation lstate := (lstate mstate).
Local Abbreviation loop := (video_loop mstate engine).
Local Abbreviation display := (display_detected_frames mstate engine).
Local Abbreviation run := (play mstate engine world yt_resolve).

Lemma display_effect (conf : Q) (trk : bool) (tracker : option string)
    (img : frame) (s : lstate) :
  match display conf trk tracker img s with
  | Normal s' | Raised _ s' =>
      ls_cap s' = ls_cap s /\ ls_iters s' = ls_iters s /\
      ls_requests s' = ls_requests s ++ [request_for conf trk tracker img]
  end.
Proof.
  unfold display_detected_frames, request_for.
  destruct trk; destruct engine as [e | [p m']]; simpl; auto.
Qed.

Lemma video_loop_fuel (conf : Q) (trk : bool) (tracker : option string) :
  forall fuel (s : lstate),
    List.length (cap_items (ls_cap s)) < fuel ->
    fst (loop fuel conf trk tracker s) <> ExitFuel.
Proof.
  induction fuel as [| fuel IH]; intros s Hlt; [lia |].
  destruct s as [[op items rel] m em rq it]; simpl in *.
  destruct op; [| discriminate].
  unfold cap_read; simpl.
  destruct items as [| [f |] rest]; simpl; try discriminate.
  pose proof (display_effect conf trk tracker f
                (mkLState (mkCapture true rest rel) m em rq (S it)))
    as Hd.
  destruct (display conf trk tracker f _) as [s' | e s'];
    [| discriminate].
  destruct Hd as [Hc _]. apply IH. rewrite Hc; simpl in *; lia.
Qed.

Lemma video_loop_requests (conf : Q) (trk : bool) (tracker : option string) :
  forall fuel (s : lstate),
    exists extra,
      ls_requests (snd (loop fuel conf trk tracker s)) =
        ls_requests s ++ extra /\
      Forall (fun r => exists img, r = request_for conf trk tracker img)
             extra.
Proof.
  induction fuel as [| fuel IH]; intros s.
  - exists []. rewrite app_nil_r. auto.
  - destruct s as [[op items rel] m em rq it]; simpl.
    destruct op; [| exists []; rewrite app_nil_r; auto].
    unfold cap_read; simpl.
    destruct items as [| [f |] rest]; simpl;
      try (exists []; rewrite app_nil_r; auto; fail).
    pose proof (display_effect conf trk tracker f
                  (mkLState (mkCapture true rest rel) m em rq (S it)))
      as Hd.
    destruct (display conf trk tracker f _) as [s' | e s'];
      destruct Hd as [_ [_ Hr]]; simpl in Hr.
    + destruct (IH s') as [extra [Hx Hf]].
      exists ([request_for conf trk tracker f] ++ extra).
      rewrite Hx, Hr, app_assoc. split; [reflexivity |].
      constructor; eauto.
    + exists [request_for conf trk tracker f]. simpl. rewrite Hr.
      split; [reflexivity | constructor; eauto].
Qed.

Lemma video_loop_release (conf : Q) (trk : bool) (tracker : option string) :
  forall fuel (s : lstate),
    cap_opened (ls_cap s) = true ->
    cap_releases (ls_cap s) = 0 ->
    List.length (cap_items (ls_cap s)) < fuel ->
    let '(ex, s') := loop fuel conf trk tracker s in
    (ex = ExitBreak /\ cap_releases (ls_cap s') = 1) \/
    (exists e, ex = ExitRaise e /\ cap_releases (ls_cap s') = 0).
Proof.
  induction fuel as [| fuel IH]; intros s Hop Hrel Hlt; [lia |].
  destruct s as [[op items rel] m em rq it]; simpl in *; subst.
  unfold cap_read; simpl.
  destruct items as [| [f |] rest]; simpl; [left; auto | | left; auto].
  pose proof (display_effect conf trk tracker f
                (mkLState (mkCapture true rest 0) m em rq (S it)))
    as Hd.
  destruct (display conf trk tracker f _) as [s' | e s'];
    destruct Hd as [Hc _].
  - apply IH; rewrite Hc; simpl in *; auto; lia.
  - right. exists e. rewrite Hc. auto.
Qed.

(** Frames the model answers without raising are consumed one per
    iteration, in order. *)
Lemma video_loop_prefix (conf : Q) (trk : bool) (tracker : option string) :
  forall fs tail rel k (s : lstate) imgs m',
    ls_cap s = mkCapture true (map RFrame fs ++ tail) rel ->
    engine_all mstate engine (ls_mst s)
               (map (request_for conf trk tracker) fs) = Some (imgs, m') ->
    loop (List.length fs + k) conf trk tracker s =
    loop k conf trk tracker
      (mkLState (mkCapture true tail rel) m' (ls_emitted s ++ imgs)
         (ls_requests s ++ map (request_for conf trk tracker) fs)
         (ls_iters s + List.length fs)).
Proof.
  induction fs as [| f fs IH]; intros tail rel k s imgs m' Hc He.
  - simpl in *. injection He as <- <-.
    destruct s as [c m em rq it]; simpl in *; subst.
    rewrite !app_nil_r, Nat.add_0_r. reflexivity.
  - destruct s as [c m em rq it]; simpl in *; subst.
    unfold cap_read; simpl.
    unfold display_detected_frames at 1. simpl.
    assert (Hrq : (if trk
                   then ReqTrack (cv2_resize f 720 target_height) conf true
                          tracker
                   else ReqPredict (cv2_resize f 720 target_height) conf) =
                  request_for conf trk tracker f) by reflexivity.
    rewrite Hrq.
    destruct (engine m (request_for conf trk tracker f)) as [e | [p m1]];
      [discriminate |].
    destruct (engine_all mstate engine m1
                (map (request_for conf trk tracker) fs)) as [[imgs1 m2] |]
      eqn:E; [| discriminate].
    injection He as <- <-.
    rewrite IH with (tail := tail) (rel := rel) (imgs := imgs1) (m' := m2);
      [| reflexivity | exact E]. simpl.
    rewrite <- !app_assoc. simpl.
    f_equal. f_equal. lia.
Qed.

Lemma engine_all_length :
  forall rs m imgs m', engine_all mstate engine m rs = Some (imgs, m') ->
  List.length imgs = List.length rs.
Proof.
  induction rs as [| r rs IH]; intros m imgs m' H; simpl in H.
  - injection H as <- <-. reflexivity.
  - destruct (engine m r) as [e | [p m1]]; [discriminate |].
    destruct (engine_all mstate engine m1 rs) as [[imgs1 m2] |] eqn:E;
      [| discriminate].
    injection H as <- <-. simpl. f_equal. eapply IH. exact E.
Qed.

Lemma play_opened (src : source) (conf : Q) (trk : bool)
    (tracker : option string) (m0 : mstate) (d : descriptor)
    (items : list read_item) :
  open_source yt_resolve src = inr d ->
  world d = Some items ->
  run src conf (trk, tracker) m0 =
  let '(ex, s) :=
    loop (S (List.length items)) conf trk tracker
         (mkLState (mkCapture true items 0) m0 [] [] 0) in
  mkRun s ex
        (match ex with
         | ExitRaise e => [error_prefix src ++ e]%string
         | _ => []
         end) true.
Proof.
  intros Ho Hw. unfold play. rewrite Ho. unfold cv2_VideoCapture.
  rewrite Hw. reflexivity.
Qed.

Lemma target_height_value : target_height = 405%Z.
Proof. vm_compute. reflexivity. Qed.

Lemma play_requests_from_frames (src : source) (conf : Q) (trk : bool)
    (tracker : option string) (m0 : mstate) :
  Forall (fun r => exists img, r = request_for conf trk tracker img)
         (ls_requests (r_state (run src conf (trk, tracker) m0))).
Proof.
  unfold play.
  destruct (open_source yt_resolve src) as [e | d]; [simpl; constructor |].
  cbv zeta.
  destruct (video_loop_requests conf trk tracker
              (S (List.length (cap_items (cv2_VideoCapture world d))))
              (init_state mstate m0 (cv2_VideoCapture world d)))
    as [extra [Hx Hf]].
  destruct (loop _ conf trk tracker _) as [ex s'] eqn:E. simpl in *.
  rewrite Hx. exact Hf.
Qed.

(** C3: every frame handed to the inference call, for every source kind and
    every source resolution, has been resized to width 720 and height
    round(720 * 9/16), which is 405. *)
Theorem play_uniform_framing (src : source) (conf : Q) (trk : bool)
    (tracker : option string) (m0 : mstate) :
  spec_round (inject_Z 720 * (9 # 16)) = 405%Z /\
  Forall (fun r => fr_width (req_frame r) = 720%Z /\
                   fr_height (req_frame r) =
                     spec_round (inject_Z 720 * (9 # 16)))
         (ls_requests (r_state (run src conf (trk, tracker) m0))).
Proof.
  assert (Hr : spec_round (inject_Z 720 * (9 # 16)) = 405%Z)
    by (vm_compute; reflexivity).
  split; [exact Hr |].
  eapply Forall_impl; [| apply play_requests_from_frames].
  intros r [img ->]. rewrite Hr, <- target_height_value.
  unfold request_for; destruct trk; simpl; auto.
Qed.

(** C6: every inference call of a run is [model.track] with [persist=True]
    and the configured tracker exactly when tracking is enabled, and
    [model.predict] otherwise; both receive the configured confidence. *)
Theorem play_request_mode (src : source) (conf : Q) (trk : bool)
    (tracker : option string) (m0 : mstate) :
  Forall (fun r => req_conf r = conf /\
                   match r with
                   | ReqTrack _ _ persist t =>
                       trk = true /\ persist = true /\ t = tracker
                   | ReqPredict _ _ => trk = false
                   end)
         (ls_requests (r_state (run src conf (trk, tracker) m0))).
Proof.
  eapply Forall_impl; [| apply play_requests_from_frames].
  intros r [img ->]. unfold request_for; destruct trk; simpl; auto.
Qed.

(** C5: a stored video whose capture delivers the frames [fs] and ends,
    with a model that answers every frame, shows exactly the model's
    answers, one per frame and in stream order, makes one loop iteration
    more than there are frames, surfaces no error and releases the capture
    once. *)
Theorem play_stored_exhaustion (name : string) (fs : list frame) (conf : Q)
    (trk : bool) (tracker : option string) (m0 : mstate)
    (imgs : list frame) (m1 : mstate) :
  world (DPath (py_str_opt (dict_get VIDEOS_DICT name))) =
    Some (map RFrame fs) ->
  engine_all mstate engine m0 (map (request_for conf trk tracker) fs) =
    Some (imgs, m1) ->
  let r := run (SrcStored name) conf (trk, tracker) m0 in
  r_exit r = ExitBreak /\ r_diags r = [] /\
  ls_emitted (r_state r) = imgs /\ List.length imgs = List.length fs /\
  ls_requests (r_state r) = map (request_for conf trk tracker) fs /\
  ls_iters (r_state r) = S (List.length fs) /\
  cap_releases (ls_cap (r_state r)) = 1 /\
  cap_opened (ls_cap (r_state r)) = false.
Proof.
  intros Hw He.
  rewrite (play_opened (SrcStored name) conf trk tracker m0 _ _ eq_refl Hw).
  rewrite length_map.
  replace (S (List.length fs)) with (List.length fs + 1) by lia.
  rewrite video_loop_prefix with (tail := []) (rel := 0) (imgs := imgs)
    (m' := m1); [| rewrite app_nil_r; reflexivity | exact He].
  simpl. rewrite Nat.add_1_r.
  repeat split; auto.
  rewrite <- (length_map (request_for conf trk tracker) fs).
  eapply engine_all_length. exact He.
Qed.

Lemma play_r_opened (src : source) (conf : Q) (opts : bool * option string)
    (m0 : mstate) :
  r_opened (run src conf opts m0) =
  match open_source yt_resolve src with
  | inl _ => false
  | inr d => cap_opened (cv2_VideoCapture world d)
  end.
Proof.
  unfold play. destruct opts as [trk tracker].
  destruct (open_source yt_resolve src) as [e | d]; [reflexivity |].
  cbv zeta. destruct (loop _ _ _ _ _). reflexivity.
Qed.

(** C1 (amended): when the model raises on a frame, the run is aborted:
    the frames answered before it are shown, the failing frame and every
    later one are neither sent to the model nor shown, and one diagnostic
    carrying the message is surfaced. *)
Theorem play_inference_fault_aborts (src : source) (d : descriptor)
    (fs : list frame) (f : frame) (tail : list read_item) (conf : Q)
    (trk : bool) (tracker : option string) (m0 : mstate)
    (imgs : list frame) (m1 : mstate) (e : string) :
  open_source yt_resolve src = inr d ->
  world d = Some (map RFrame fs ++ RFrame f :: tail) ->
  engine_all mstate engine m0 (map (request_for conf trk tracker) fs) =
    Some (imgs, m1) ->
  engine m1 (request_for conf trk tracker f) = inl e ->
  let r := run src conf (trk, tracker) m0 in
  r_exit r = ExitRaise e /\
  r_diags r = [error_prefix src ++ e]%string /\
  ls_emitted (r_state r) = imgs /\
  ls_requests (r_state r) = map (request_for conf trk tracker) (fs ++ [f]).
Proof.
  intros Ho Hw He Hf.
  rewrite (play_opened src conf trk tracker m0 d _ Ho Hw).
  replace (S (List.length (map RFrame fs ++ RFrame f :: tail)))
    with (List.length fs + S (S (List.length tail)))
    by (rewrite length_app, length_map; simpl; lia).
  rewrite video_loop_prefix with (tail := RFrame f :: tail) (rel := 0)
    (imgs := imgs) (m' := m1); [| reflexivity | exact He].
  rewrite map_app. unfold request_for in Hf |- *.
  destruct trk; simpl in *; unfold display_detected_frames; simpl;
    rewrite Hf; simpl; auto.
Qed.

(** C2 (amended): once the capture has opened, the run either ends through
    a failed read and releases the capture exactly once, or is left by an
    exception raised while processing a frame and never releases it. *)
Theorem play_release_paths (src : source) (conf : Q) (trk : bool)
    (tracker : option string) (m0 : mstate) :
  let r := run src conf (trk, tracker) m0 in
  r_opened r = true ->
  (r_exit r = ExitBreak /\ r_diags r = [] /\
   cap_releases (ls_cap (r_state r)) = 1) \/
  (exists e, r_exit r = ExitRaise e /\
             r_diags r = [error_prefix src ++ e]%string /\
             cap_releases (ls_cap (r_state r)) = 0).
Proof.
  intros r H. subst r. rewrite play_r_opened in H.
  destruct (open_source yt_resolve src) as [e | d] eqn:Ho; [discriminate |].
  unfold cv2_VideoCapture in H.
  destruct (world d) as [items |] eqn:Hw; [| discriminate].
  rewrite (play_opened src conf trk tracker m0 d items Ho Hw).
  pose proof (video_loop_release conf trk tracker (S (List.length items))
                (mkLState (mkCapture true items 0) m0 [] [] 0)
                eq_refl eq_refl (Nat.lt_succ_diag_r _)) as Hrel.
  destruct (loop _ _ _ _ _) as [ex s']. simpl.
  destruct Hrel as [[-> ->] | [e [-> ->]]]; [left | right; exists e]; auto.
Qed.

(** C4: an RTSP URL that [cv2.VideoCapture] cannot open ends the run
    without any iteration, frame, inference call or diagnostic. *)
Theorem play_rtsp_unopened_silent (url : string) (conf : Q) (trk : bool)
    (tracker : option string) (m0 : mstate) :
  world (DPath url) = None ->
  let r := play mstate engine world yt_resolve (SrcRtsp url) conf
                (trk, tracker) m0 in
  r_opened r = false /\ r_exit r = ExitCond /\ r_diags r = [] /\
  ls_emitted (r_state r) = [] /\ ls_requests (r_state r) = [].
Proof.
  intros Hw. unfold play, cv2_VideoCapture. simpl. rewrite Hw.
  simpl. auto.
Qed.

(** C8: [display_tracker_options] returns [(True, t)] with [t] one of the
    two tracker files, or [(False, None)]; [st.radio] returns one of its
    options. *)
Theorem display_tracker_options_shape
    (pick : string -> list string -> string) :
  (forall label options, options <> [] -> In (pick label options) options) ->
  match display_tracker_options pick with
  | (true, Some a) => a = "bytetrack.yaml"%string \/ a = "botsort.yaml"%string
  | (false, None) => True
  | _ => False
  end.
Proof.
  intros Hpick. unfold display_tracker_options.
  destruct (string_dec _ _) as [_ | _]; [| exact I].
  specialize (Hpick "Tracker"%string ["bytetrack.yaml"; "botsort.yaml"]%string).
  destruct Hpick as [H | [H | []]]; [discriminate | left | right];
    symmetry; assumption.
Qed.

End PipelineFacts.

(** ** Facts about the zip batch path *)

Section BatchFacts.

Variable pil_image : Type.
Variable pil_open : list Byte.byte -> string + pil_image.
Variable predict : pil_image -> Q -> string + frame.
Variable flip_channels : frame -> frame.

Local Open Scope nat_scope.

Local Abbreviation loop :=
  (detect_loop pil_image pil_open predict flip_channels).

Lemma detect_loop_spec (conf : Q) :
  forall files b,
    let b' := loop conf files b in
    b_attempted b' =
      b_attempted b ++
      map fst (filter (fun e => has_image_ext (fst e)) files) /\
    b_detected b' = b_detected b ++
      flat_map (entry_images pil_image pil_open predict flip_channels conf)
               files /\
    b_errors b' = b_errors b ++
      flat_map (entry_errors pil_image pil_open predict flip_channels conf)
               files /\
    exists extra, b_calls b' = b_calls b ++ extra /\
      Forall (fun c => has_image_ext (fst c) = true /\ snd c = conf) extra.
Proof.
  induction files as [| [n d] files IH]; intros b; simpl.
  - rewrite !app_nil_r. repeat split; auto.
    exists []. rewrite app_nil_r. auto.
  - unfold entry_images at 1, entry_errors at 1, entry_outcome; simpl.
    destruct (has_image_ext n) eqn:Hn; simpl.
    + destruct (pil_open d) as [ex | im]; simpl.
      * destruct (IH (b_error (mkBState (b_attempted b ++ [n]) (b_calls b)
                                (b_detected b) (b_errors b))
                      (process_error n ex)))
          as [Ha [Hd [He [extra [Hc Hf]]]]]; simpl in *.
        rewrite Ha, Hd, He, Hc, <- !app_assoc.
        repeat split; auto. exists extra; auto.
      * destruct (predict im conf) as [ex | plot]; simpl.
        -- destruct (IH (b_error (mkBState (b_attempted b ++ [n])
                                   (b_calls b ++ [(n, conf)])
                                   (b_detected b) (b_errors b))
                         (process_error n ex)))
             as [Ha [Hd [He [extra [Hc Hf]]]]]; simpl in *.
           rewrite Ha, Hd, He, Hc, <- !app_assoc.
           repeat split; auto. exists ((n, conf) :: extra); auto.
        -- destruct (IH (mkBState (b_attempted b ++ [n])
                           (b_calls b ++ [(n, conf)])
                           (b_detected b ++ [(n, flip_channels plot)])
                           (b_errors b)))
             as [Ha [Hd [He [extra [Hc Hf]]]]]; simpl in *.
           rewrite Ha, Hd, He, Hc, <- !app_assoc.
           repeat split; auto. exists ((n, conf) :: extra); auto.
    + exact (IH b).
Qed.

Lemma grid_rows (l : list (string * frame)) :
  forall rows a,
    flat_map (fun i => map (fun j => grid_cell l (i * 3 + j)) (seq 0 3))
             (seq a rows) =
    map (grid_cell l) (seq (a * 3) (rows * 3)).
Proof.
  induction rows as [| rows IH]; intros a; [reflexivity |].
  cbn [seq flat_map]. rewrite IH.
  replace (S rows * 3) with (S (S (S (rows * 3)))) by lia.
  replace (S a * 3) with (S (S (S (a * 3)))) by lia.
  cbn [seq map app]. rewrite !Nat.add_succ_r, Nat.add_0_r. reflexivity.
Qed.

Lemma shown_images_app (c1 c2 : list cell) :
  shown_images (c1 ++ c2) = shown_images c1 ++ shown_images c2.
Proof.
  induction c1 as [| [n im |] c1 IH]; simpl; rewrite ?IH; reflexivity.
Qed.

Lemma skipn_nth_error {A : Type} :
  forall (l : list A) a x, nth_error l a = Some x ->
  skipn a l = x :: skipn (S a) l.
Proof.
  induction l as [| y l IH]; intros [| a] x H; simpl in *;
    try discriminate.
  - injection H as ->. reflexivity.
  - apply IH. exact H.
Qed.

Lemma grid_cell_prefix (l : list (string * frame)) :
  forall k a, a + k <= List.length l ->
  shown_images (map (grid_cell l) (seq a k)) = firstn k (skipn a l).
Proof.
  induction k as [| k IH]; intros a Hk; [reflexivity |].
  cbn [seq map].
  assert (Ha : a < List.length l) by lia.
  destruct (nth_error l a) as [[n im] |] eqn:E;
    [| apply nth_error_None in E; lia].
  unfold grid_cell at 1. rewrite E.
  replace (a <? List.length l) with true by (symmetry; apply Nat.ltb_lt; lia).
  simpl. rewrite (skipn_nth_error l a _ E). simpl.
  f_equal. apply IH. lia.
Qed.

Lemma grid_cell_suffix (l : list (string * frame)) :
  forall k a, List.length l <= a ->
  shown_images (map (grid_cell l) (seq a k)) = [].
Proof.
  induction k as [| k IH]; intros a Ha; [reflexivity |].
  cbn [seq map]. unfold grid_cell at 1.
  replace (a <? List.length l) with false by (symmetry; apply Nat.ltb_ge; lia).
  simpl. apply IH. lia.
Qed.

(** The collage shows every detected image exactly once, in list order. *)
Lemma grid_cells_shown (l : list (string * frame)) :
  shown_images (grid_cells l) = l.
Proof.
  unfold grid_cells. cbv zeta.
  rewrite grid_rows. simpl (0 * 3).
  set (n := List.length l).
  set (rows := (n + 3 - 1) / 3).
  assert (Hn : n <= rows * 3).
  { subst rows. pose proof (Nat.div_mod_eq (n + 3 - 1) 3).
    pose proof (Nat.mod_upper_bound (n + 3 - 1) 3). lia. }
  replace (rows * 3) with (n + (rows * 3 - n)) by lia.
  rewrite seq_app, map_app, shown_images_app.
  rewrite (grid_cell_prefix l n 0) by lia.
  rewrite (grid_cell_suffix l _ (0 + n)) by lia.
  rewrite app_nil_r. simpl. apply firstn_all.
Qed.

(** C9: the slider of [app()] yields an integer in 25..100, so the
    confidence handed to every [predict] call of the batch lies in
    [0.25, 1]. *)
Theorem batch_confidence_range (v : Z)
    (zip : string + list (string * list Byte.byte)) :
  (25 <= v <= 100)%Z ->
  Forall (fun c => snd c = slider_confidence v /\
                   (1 # 4 <= snd c)%Q /\ (snd c <= 1)%Q)
         (b_calls (ba_loop (batch_app pil_image pil_open predict
                              flip_channels v zip))).
Proof.
  intros Hv.
  assert (Hq : (1 # 4 <= slider_confidence v)%Q /\
               (slider_confidence v <= 1)%Q).
  { unfold slider_confidence, Qdiv, Qle, Qmult, Qinv. simpl. lia. }
  unfold batch_app. destruct zip as [ex | files]; simpl; [constructor |].
  destruct (detect_loop_spec (slider_confidence v) files (mkBState [] [] [] []))
    as [_ [_ [_ [extra [Hc Hf]]]]].
  simpl in Hc. rewrite Hc.
  eapply Forall_impl; [| exact Hf]. intros c [_ ->]. auto.
Qed.

(** C10: only entries whose lower-cased name ends in one of the five image
    extensions enter detection, the others leave no trace; each failing
    image adds one diagnostic and the loop goes on; the collage shows one
    image per successfully processed entry, in archive order. *)
Theorem batch_image_entries (v : Z)
    (files : list (string * list Byte.byte)) :
  let r := batch_app pil_image pil_open predict flip_channels v
                     (inr files) in
  let conf := slider_confidence v in
  b_attempted (ba_loop r) =
    map fst (filter (fun e => has_image_ext (fst e)) files) /\
  Forall (fun c => has_image_ext (fst c) = true) (b_calls (ba_loop r)) /\
  ba_errors r =
    flat_map (entry_errors pil_image pil_open predict flip_channels conf)
             files /\
  shown_images (ba_cells r) =
    flat_map (entry_images pil_image pil_open predict flip_channels conf)
             files.
Proof.
  unfold batch_app. cbv zeta.
  destruct (detect_loop_spec (slider_confidence v) files (mkBState [] [] [] []))
    as [Ha [Hd [He [extra [Hc Hf]]]]].
  simpl in Ha, Hd, He, Hc. simpl.
  rewrite Ha, He, Hc. repeat split.
  - eapply Forall_impl; [| exact Hf]. intros c [H _]. exact H.
  - destruct (b_detected _) as [| x xs] eqn:E.
    + rewrite <- Hd. reflexivity.
    + rewrite grid_cells_shown, <- Hd. reflexivity.
Qed.

End BatchFacts.

(** ** Witnesses and counterexamples *)

Module Checks.

Import Scenario.

(** C1 (amended), instantiated: a ten-frame stored video whose fifth frame
    makes the model raise. *)
Lemma play_inference_fault_aborts_witness :
  let r := fault_run in
  r_exit r = ExitRaise "engine fault"%string /\
  r_diags r = [error_prefix (SrcStored "Tower") ++ "engine fault"]%string /\
  ls_emitted (r_state r) = resized (firstn 4 ten_frames) /\
  ls_requests (r_state r) =
    map (request_for (2 # 5) true bytetrack)
        (firstn 4 ten_frames ++ [nth 4 ten_frames (mkFrame 0 0 0)]).
Proof.
  apply (play_inference_fault_aborts unit eng_fault5 stored_world no_youtube
           (SrcStored "Tower") (DPath "videos/tower.mp4")
           (firstn 4 ten_frames) (nth 4 ten_frames (mkFrame 0 0 0))
           (map RFrame (skipn 5 ten_frames)) (2 # 5) true bytetrack tt
           (resized (firstn 4 ten_frames)) tt "engine fault");
    vm_compute; reflexivity.
Defined.

(** C1 is false as stated: when the model raises on frame 5, frames 6 to
    10 are never shown; only frames 1 to 4 are. *)
Lemma inference_fault_drops_later_frames :
  ls_emitted (r_state fault_run) = resized (firstn 4 ten_frames) /\
  ~ In (cv2_resize (nth 5 ten_frames (mkFrame 0 0 0)) 720 405)
       (ls_emitted (r_state fault_run)).
Proof.
  split; [vm_compute; reflexivity |].
  vm_compute. intros H. repeat destruct H as [H | H]; try discriminate H.
  exact H.
Qed.

(** C2 is false as stated: the same run leaves the capture open, with no
    [release()] call, after the exception raised on frame 5. *)
Lemma inference_fault_leaves_capture_open :
  r_opened fault_run = true /\
  r_exit fault_run = ExitRaise "engine fault"%string /\
  cap_opened (ls_cap (r_state fault_run)) = true /\
  cap_releases (ls_cap (r_state fault_run)) = 0%nat.
Proof. vm_compute. auto. Qed.

(** C2 (amended), instantiated on the healthy stored video. *)
Lemma play_release_paths_witness :
  let r := play unit eng_ok stored_world no_youtube (SrcStored "Tower")
                (2 # 5) (false, None) tt in
  (r_exit r = ExitBreak /\ r_diags r = [] /\
   cap_releases (ls_cap (r_state r)) = 1%nat) \/
  (exists e, r_exit r = ExitRaise e /\
             r_diags r = [error_prefix (SrcStored "Tower") ++ e]%string /\
             cap_releases (ls_cap (r_state r)) = 0%nat).
Proof.
  apply (play_release_paths unit eng_ok stored_world no_youtube
           (SrcStored "Tower") (2 # 5) false None tt).
  vm_compute. reflexivity.
Defined.

(** C4, instantiated: an RTSP URL that does not open. *)
Lemma play_rtsp_unopened_silent_witness :
  let r := play unit eng_ok stored_world no_youtube
                (SrcRtsp "rtsp://10.255.255.1:554/stream") (2 # 5)
                (false, None) tt in
  r_opened r = false /\ r_exit r = ExitCond /\ r_diags r = [] /\
  ls_emitted (r_state r) = [] /\ ls_requests (r_state r) = [].
Proof.
  apply (play_rtsp_unopened_silent unit eng_ok stored_world no_youtube
           "rtsp://10.255.255.1:554/stream" (2 # 5) false None tt).
  vm_compute. reflexivity.
Defined.

(** C5, instantiated: scenario A, ten frames, no tracking, confidence
    0.4. *)
Lemma play_stored_exhaustion_witness :
  let r := play unit eng_ok stored_world no_youtube (SrcStored "Tower")
                (2 # 5) (false, None) tt in
  r_exit r = ExitBreak /\ r_diags r = [] /\
  ls_emitted (r_state r) = resized ten_frames /\
  List.length (resized ten_frames) = List.length ten_frames /\
  ls_requests (r_state r) = map (request_for (2 # 5) false None) ten_frames /\
  ls_iters (r_state r) = S (List.length ten_frames) /\
  cap_releases (ls_cap (r_state r)) = 1%nat /\
  cap_opened (ls_cap (r_state r)) = false.
Proof.
  apply (play_stored_exhaustion unit eng_ok stored_world no_youtube
           "Tower" ten_frames (2 # 5) false None tt (resized ten_frames) tt);
    vm_compute; reflexivity.
Defined.

(** C8, instantiated with radios left on their first option. *)
Lemma display_tracker_options_shape_witness :
  match display_tracker_options (fun _ o => hd ""%string o) with
  | (true, Some a) => a = "bytetrack.yaml"%string \/ a = "botsort.yaml"%string
  | (false, None) => True
  | _ => False
  end.
Proof.
  apply (display_tracker_options_shape (fun _ o => hd ""%string o)).
  intros label [| o os] H; [contradiction H; reflexivity | left; reflexivity].
Defined.

(** C9, instantiated: slider at its default 40, on the demo archive. *)
Lemma batch_confidence_range_witness :
  Forall (fun c => snd c = slider_confidence 40 /\
                   (1 # 4 <= snd c)%Q /\ (snd c <= 1)%Q)
         (b_calls (ba_loop (batch_app nat pil_open_demo predict_demo
                              (fun f => f) 40 (inr demo_zip)))).
Proof.
  apply (batch_confidence_range nat pil_open_demo predict_demo (fun f => f)
           40 (inr demo_zip)).
  split; discriminate.
Defined.

End Checks.

(** ** Further facts about the video paths of helper.py *)

Section PipelineExtras.

Variable mstate : Type.
Variable engine : mstate -> request -> string + (frame * mstate).
Variable world : descriptor -> option (list read_item).
Variable yt_resolve : string -> string + option string.

Local Open Scope nat_scope.

Local Abbreviation lstate := (lstate mstate).
Local Abbreviation loop := (video_loop mstate engine).
Local Abbreviation display := (display_detected_frames mstate engine).

Lemma display_emitted (conf : Q) (trk : bool) (tracker : option string)
    (img : frame) (s : lstate) :
  match display conf trk tracker img s with
  | Normal s' => List.length (ls_emitted s') = S (List.length (ls_emitted s))
  | Raised _ s' => ls_emitted s' = ls_emitted s
  end.
Proof.
  unfold display_detected_frames.
  destruct trk; destruct engine as [e | [p m']]; simpl;
    rewrite ?length_app; simpl; lia || reflexivity.
Qed.

Lemma video_loop_balance (conf : Q) (trk : bool) (tracker : option string) :
  forall fuel (s : lstate),
    let '(ex, s') := loop fuel conf trk tracker s in
    List.length (ls_requests s') + List.length (ls_emitted s) =
    List.length (ls_requests s) + List.length (ls_emitted s') +
    match ex with ExitRaise _ => 1 | _ => 0 end.
Proof.
  induction fuel as [| fuel IH]; intros s; [simpl; lia |].
  destruct s as [[op items rel] m em rq it]; simpl.
  destruct op; [| simpl; lia].
  unfold cap_read; simpl.
  destruct items as [| [f |] rest]; simpl; try lia.
  set (s1 := mkLState (mkCapture true rest rel) m em rq (S it)).
  pose proof (display_effect mstate engine conf trk tracker f s1) as Hd.
  pose proof (display_emitted conf trk tracker f s1) as He.
  destruct (display conf trk tracker f s1) as [s' | e s'];
    destruct Hd as [_ [_ Hr]]; subst s1; simpl in *.
  - specialize (IH s').
    destruct (loop fuel conf trk tracker s') as [ex s''].
    rewrite Hr, length_app in IH. simpl in IH. lia.
  - rewrite Hr, He, length_app. simpl. lia.
Qed.

(** The read loop of every [play_*] function stops at the first failed
    read exactly as at the end of the stream: the capture is released once,
    no diagnostic is shown, and the reads after the failure are never
    made. *)
Theorem play_read_failure_silent (src : source) (d : descriptor)
    (fs : list frame) (tail : list read_item) (conf : Q) (trk : bool)
    (tracker : option string) (m0 : mstate) (imgs : list frame)
    (m1 : mstate) :
  open_source yt_resolve src = inr d ->
  world d = Some (map RFrame fs ++ RFail :: tail) ->
  engine_all mstate engine m0 (map (request_for conf trk tracker) fs) =
    Some (imgs, m1) ->
  let r := play mstate engine world yt_resolve src conf (trk, tracker) m0 in
  r_exit r = ExitBreak /\ r_diags r = [] /\
  ls_emitted (r_state r) = imgs /\
  ls_requests (r_state r) = map (request_for conf trk tracker) fs /\
  cap_releases (ls_cap (r_state r)) = 1 /\
  cap_items (ls_cap (r_state r)) = tail.
Proof.
  intros Ho Hw He.
  rewrite (play_opened mstate engine world yt_resolve src conf trk tracker
             m0 d _ Ho Hw).
  replace (S (List.length (map RFrame fs ++ RFail :: tail)))
    with (List.length fs + S (S (List.length tail)))
    by (rewrite length_app, length_map; simpl; lia).
  rewrite video_loop_prefix with (tail := RFail :: tail) (rel := 0)
    (imgs := imgs) (m' := m1); [| reflexivity | exact He].
  simpl. repeat split; auto.
Qed.

(** Whatever the source (stored video, webcam, RTSP or a resolved YouTube
    stream), a capture that does not open ends the run at once: no
    iteration, no frame, no inference call, no [release()], no
    diagnostic. *)
Theorem play_unopened_silent (src : source) (d : descriptor) (conf : Q)
    (trk : bool) (tracker : option string) (m0 : mstate) :
  open_source yt_resolve src = inr d ->
  world d = None ->
  let r := play mstate engine world yt_resolve src conf (trk, tracker) m0 in
  r_opened r = false /\ r_exit r = ExitCond /\ r_diags r = [] /\
  ls_iters (r_state r) = 0 /\ ls_emitted (r_state r) = [] /\
  ls_requests (r_state r) = [] /\ cap_releases (ls_cap (r_state r)) = 0.
Proof.
  intros Ho Hw. unfold play. rewrite Ho. unfold cv2_VideoCapture.
  rewrite Hw. simpl. repeat split; auto.
Qed.

(** [play_youtube_video]: when pytubefix raises, or finds no mp4 stream
    (then [stream.url] raises on [None]), one "Error loading video: "
    diagnostic is shown and no capture is opened nor inference made. *)
Theorem play_youtube_unresolved (url : string) (conf : Q) (trk : bool)
    (tracker : option string) (m0 : mstate) :
  match yt_resolve url with inr (Some _) => False | _ => True end ->
  let r := play mstate engine world yt_resolve (SrcYoutube url) conf
                (trk, tracker) m0 in
  exists e,
    r_exit r = ExitRaise e /\
    r_diags r = [("Error loading video: " ++ e)%string] /\
    (yt_resolve url = inr None -> e = none_url_error) /\
    r_opened r = false /\ ls_emitted (r_state r) = [] /\
    ls_requests (r_state r) = [].
Proof.
  intros H. unfold play; simpl.
  destruct (yt_resolve url) as [e | [u |]] eqn:Hy; [| contradiction |].
  - exists e. repeat split; auto. discriminate.
  - exists none_url_error. repeat split; auto.
Qed.

(** Every inference call of a run shows exactly one frame, except a call
    that raises, which is then the last one: the calls made equal the frames
    shown, or exceed them by one when the run ended on an exception. *)
Theorem play_calls_match_shown (src : source) (conf : Q) (trk : bool)
    (tracker : option string) (m0 : mstate) :
  let r := play mstate engine world yt_resolve src conf (trk, tracker) m0 in
  List.length (ls_requests (r_state r)) =
    List.length (ls_emitted (r_state r)) \/
  (List.length (ls_requests (r_state r)) =
     S (List.length (ls_emitted (r_state r))) /\
   exists e, r_exit r = ExitRaise e /\
             r_diags r = [(error_prefix src ++ e)%string]).
Proof.
  unfold play.
  destruct (open_source yt_resolve src) as [e | d]; [left; reflexivity |].
  cbv zeta.
  pose proof (video_loop_balance conf trk tracker
                (S (List.length (cap_items (cv2_VideoCapture world d))))
                (init_state mstate m0 (cv2_VideoCapture world d))) as Hb.
  destruct (loop _ conf trk tracker _) as [ex s']. simpl in *.
  destruct ex as [| | e |]; [left; lia | left; lia | right | left; lia].
  split; [lia | exists e; auto].
Qed.

End PipelineExtras.

(** ** Further facts about the zip batch path of apps/upload2.py *)

Section BatchExtras.

Variable pil_image : Type.
Variable pil_open : list Byte.byte -> string + pil_image.
Variable predict : pil_image -> Q -> string + frame.
Variable flip_channels : frame -> frame.

Local Open Scope nat_scope.

Lemma grid_cell_prefix_cells (l : list (string * frame)) :
  forall k a, a + k <= List.length l ->
  map (grid_cell l) (seq a k) = map cell_of (firstn k (skipn a l)).
Proof.
  induction k as [| k IH]; intros a Hk; [reflexivity |].
  cbn [seq map].
  destruct (nth_error l a) as [[n im] |] eqn:E;
    [| apply nth_error_None in E; lia].
  unfold grid_cell at 1. rewrite E.
  replace (a <? List.length l) with true by (symmetry; apply Nat.ltb_lt; lia).
  rewrite (skipn_nth_error l a _ E). simpl.
  f_equal. apply IH. lia.
Qed.

Lemma grid_cell_suffix_cells (l : list (string * frame)) :
  forall k a, List.length l <= a ->
  map (grid_cell l) (seq a k) = repeat CellEmpty k.
Proof.
  induction k as [| k IH]; intros a Ha; [reflexivity |].
  cbn [seq map repeat]. unfold grid_cell at 1.
  replace (a <? List.length l) with false by (symmetry; apply Nat.ltb_ge; lia).
  f_equal. apply IH. lia.
Qed.

(** The collage lists the detected images in order, cell [k] (row [k / 3],
    column [k mod 3]) holding image [k], and pads the last row with fewer
    than three empty cells, so that it has [ceil(n / 3)] full rows. *)
Theorem grid_cells_layout (l : list (string * frame)) :
  let n := List.length l in
  let rows := (n + 3 - 1) / 3 in
  grid_cells l = map cell_of l ++ repeat CellEmpty (rows * 3 - n) /\
  n <= rows * 3 /\ rows * 3 - n < 3.
Proof.
  intros n rows.
  assert (Hn : n <= rows * 3 /\ rows * 3 - n < 3).
  { subst rows. pose proof (Nat.div_mod_eq (n + 3 - 1) 3).
    pose proof (Nat.mod_upper_bound (n + 3 - 1) 3). lia. }
  split; [| exact Hn].
  unfold grid_cells. cbv zeta. fold n. fold rows.
  rewrite grid_rows. simpl (0 * 3).
  replace (rows * 3) with (n + (rows * 3 - n)) at 1 by lia.
  rewrite seq_app, map_app.
  rewrite (grid_cell_prefix_cells l n 0) by lia.
  rewrite (grid_cell_suffix_cells l _ (0 + n)) by lia.
  simpl. unfold n at 1. rewrite firstn_all. reflexivity.
Qed.

Lemma entry_accounting (conf : Q) (files : list (string * list Byte.byte)) :
  List.length (map fst (filter (fun e => has_image_ext (fst e)) files)) =
  List.length (flat_map (entry_images pil_image pil_open predict
                           flip_channels conf) files) +
  List.length (flat_map (entry_errors pil_image pil_open predict
                           flip_channels conf) files).
Proof.
  induction files as [| [n d] files IH]; [reflexivity |].
  simpl. rewrite !length_app.
  unfold entry_images at 1, entry_errors at 1, entry_outcome.
  destruct (has_image_ext n); simpl; [| exact IH].
  destruct (pil_open d) as [ex | im]; simpl;
    [| destruct (predict im conf)]; simpl; rewrite length_map in IH |- *;
    lia.
Qed.


Lemma str_lower_app (a b : string) :
  str_lower (a ++ b) = (str_lower a ++ str_lower b)%string.
Proof. induction a as [| c a IH]; simpl; [| rewrite IH]; reflexivity. Qed.

Lemma str_length_app (a b : string) :
  String.length (a ++ b) = String.length a + String.length b.
Proof. induction a as [| c a IH]; simpl; [| rewrite IH]; reflexivity. Qed.

Lemma substring_full (s : string) : substring 0 (String.length s) s = s.
Proof. induction s as [| c s IH]; simpl; [| rewrite IH]; reflexivity. Qed.

Lemma substring_app (a b : string) :
  substring (String.length a) (String.length b) (a ++ b) = b.
Proof.
  induction a as [| c a IH]; simpl; [apply substring_full |].
  destruct (String.length b); exact IH.
Qed.

Lemma substring_split (s : string) :
  forall i, i <= String.length s ->
  s = (substring 0 i s ++ substring i (String.length s - i) s)%string.
Proof.
  induction s as [| c s IH]; intros [| i] Hi; simpl in *.
  - reflexivity.
  - lia.
  - rewrite substring_full. reflexivity.
  - f_equal. apply IH. lia.
Qed.

Lemma ends_with_app (p suf : string) : ends_with suf (p ++ suf) = true.
Proof.
  unfold ends_with. rewrite str_length_app.
  replace (String.length p + String.length suf - String.length suf)
    with (String.length p) by lia.
  rewrite substring_app, String.eqb_refl, andb_true_r.
  apply Nat.leb_le. lia.
Qed.

Lemma ends_with_spec (suf s : string) :
  ends_with suf s = true <-> exists p, s = (p ++ suf)%string.
Proof.
  split.
  - unfold ends_with. intros H. apply andb_prop in H as [Hk Hs].
    apply Nat.leb_le in Hk. apply String.eqb_eq in Hs.
    exists (substring 0 (String.length s - String.length suf) s).
    rewrite (substring_split s (String.length s - String.length suf))
      at 1 by lia.
    replace (String.length s - (String.length s - String.length suf))
      with (String.length suf) by lia.
    rewrite Hs. reflexivity.
  - intros [p ->]. apply ends_with_app.
Qed.


(** Whatever comes before it, a name ending in one of the five extensions
    written in any mix of upper and lower case is accepted. *)
Theorem has_image_ext_any_case (p e : string) :
  In (str_lower e) IMAGE_EXTS -> has_image_ext (p ++ e) = true.
Proof.
  intros Hin. unfold has_image_ext. apply existsb_exists.
  exists (str_lower e). split; [exact Hin |].
  rewrite str_lower_app. apply ends_with_app.
Qed.

End BatchExtras.

(** ** Facts about apps/upload.py *)

Section UploadExtras.

Local Open Scope nat_scope.

Lemma str_app_assoc (a b c : string) :
  ((a ++ b) ++ c)%string = (a ++ b ++ c)%string.
Proof. induction a as [| x a IH]; simpl; [| rewrite IH]; reflexivity. Qed.

Lemma str_app_nil (a : string) : (a ++ EmptyString)%string = a.
Proof. induction a as [| x a IH]; simpl; [| rewrite IH]; reflexivity. Qed.

Lemma strip_prefix_app (p s : string) : strip_prefix p (p ++ s) = Some s.
Proof. induction p as [| c p IH]; simpl; [| rewrite Ascii.eqb_refl]; auto. Qed.

Lemma strip_prefix_spec (p s r : string) :
  strip_prefix p s = Some r -> s = (p ++ r)%string.
Proof.
  revert s; induction p as [| c p IH]; intros [| c' s] H; simpl in *;
    try congruence.
  destruct (Ascii.eqb c c') eqn:E; [| discriminate].
  apply Ascii.eqb_eq in E; subst c'. f_equal. apply IH, H.
Qed.

Lemma take_url_app (u r : string) :
  ~ In dq (list_ascii_of_string u) -> take_url (u ++ String dq r) = Some u.
Proof.
  induction u as [| c u IH]; intros Hu; cbn [take_url append].
  - rewrite Ascii.eqb_refl. reflexivity.
  - simpl in Hu. destruct (Ascii.eqb c dq) eqn:E.
    + apply Ascii.eqb_eq in E. tauto.
    + rewrite IH by tauto. reflexivity.
Qed.

Lemma take_url_spec (s u : string) :
  take_url s = Some u ->
  ~ In dq (list_ascii_of_string u) /\ exists r, s = (u ++ String dq r)%string.
Proof.
  revert u; induction s as [| c s IH]; intros u H; simpl in H; [discriminate |].
  destruct (Ascii.eqb c dq) eqn:E.
  - apply Ascii.eqb_eq in E; subst c. injection H as <-.
    split; [simpl; tauto | exists s; reflexivity].
  - destruct (take_url s) as [u' |] eqn:Ht; simpl in H; [| discriminate].
    injection H as <-. destruct (IH u' eq_refl) as [Hq [r Hr]].
    split.
    + simpl. intros [Hc | Hc]; [| tauto]. subst c.
      rewrite Ascii.eqb_refl in E. discriminate.
    + exists r. simpl. rewrite Hr. reflexivity.
Qed.

Lemma extract_image_link_cons (c : ascii) (s : string) :
  extract_image_link (String c s) =
  match img_match_at (String c s) with
  | Some link => Some link
  | None => extract_image_link s
  end.
Proof. reflexivity. Qed.

Lemma img_match_at_not_lt (c : ascii) (s : string) :
  c <> "<"%char -> img_match_at (String c s) = None.
Proof.
  intros Hc. unfold img_match_at, img_open. cbn [strip_prefix append].
  destruct (Ascii.eqb "<" c) eqn:E; [| reflexivity].
  apply Ascii.eqb_eq in E. congruence.
Qed.

Lemma extract_image_link_skip (p s : string) :
  ~ In "<"%char (list_ascii_of_string p) ->
  extract_image_link (p ++ s) = extract_image_link s.
Proof.
  induction p as [| c p IH]; intros Hp; [reflexivity |].
  simpl in Hp. cbn [append]. rewrite extract_image_link_cons.
  rewrite img_match_at_not_lt by (intros ->; tauto).
  apply IH. tauto.
Qed.

Lemma img_match_at_extract (s link : string) :
  img_match_at s = Some link -> extract_image_link s = Some link.
Proof.
  destruct s as [| c s]; intros H; [exact H |].
  rewrite extract_image_link_cons, H. reflexivity.
Qed.

Lemma img_match_at_link (link rest : string) :
  link <> EmptyString -> ~ In dq (list_ascii_of_string link) ->
  img_match_at (img_open ++ link ++ dqs ++ rest) = Some link.
Proof.
  intros Hne Hq. unfold img_match_at. rewrite strip_prefix_app.
  change (dqs ++ rest)%string with (String dq rest).
  rewrite take_url_app by exact Hq.
  destruct link; [congruence | reflexivity].
Qed.

Lemma img_match_at_spec (s link : string) :
  img_match_at s = Some link ->
  link <> EmptyString /\ ~ In dq (list_ascii_of_string link) /\
  exists r, s = (img_open ++ link ++ dqs ++ r)%string.
Proof.
  unfold img_match_at. intros H.
  destruct (strip_prefix img_open s) as [rest |] eqn:Hs; [| discriminate].
  destruct (take_url rest) as [[| c u] |] eqn:Ht; try discriminate.
  injection H as <-. apply take_url_spec in Ht as [Hq [r Hr]].
  split; [discriminate | split; [exact Hq |]].
  exists r. apply strip_prefix_spec in Hs. rewrite Hs, Hr. reflexivity.
Qed.

(** [extract_image_link]: a link it returns is non-empty, holds no double
    quote, and occurs in the description between [<img src=] with its
    opening quote and a closing quote. *)
Theorem extract_image_link_sound (description link : string) :
  extract_image_link description = Some link ->
  link <> EmptyString /\ ~ In dq (list_ascii_of_string link) /\
  exists before after,
    description = (before ++ img_open ++ link ++ dqs ++ after)%string.
Proof.
  induction description as [| c d IH]; intros H.
  - apply img_match_at_spec in H as [Hne [Hq [r Hr]]].
    repeat split; auto. exists EmptyString, r. exact Hr.
  - rewrite extract_image_link_cons in H.
    destruct (img_match_at (String c d)) as [l |] eqn:Hm.
    + injection H as <-. apply img_match_at_spec in Hm as [Hne [Hq [r Hr]]].
      repeat split; auto. exists EmptyString, r. exact Hr.
    + destruct (IH H) as [Hne [Hq [b [a Ha]]]].
      repeat split; auto. exists (String c b), a. rewrite Ha. reflexivity.
Qed.

(** [extract_image_link]: when nothing before the first image tag is a
    [<], the link of that tag is returned, whatever follows it (a later
    tag included), provided the link is non-empty and quote-free. *)
Theorem extract_image_link_first (before link after : string) :
  ~ In "<"%char (list_ascii_of_string before) ->
  link <> EmptyString -> ~ In dq (list_ascii_of_string link) ->
  extract_image_link (before ++ img_open ++ link ++ dqs ++ after) = Some link.
Proof.
  intros Hb Hne Hq. rewrite extract_image_link_skip by exact Hb.
  apply img_match_at_extract, img_match_at_link; assumption.
Qed.

(** [app()] and [extract_image_link]: the image link written into a
    marker's popup is read back from the popup by [extract_image_link]
    when it is non-empty and holds no double quote, whatever the
    description and the name. *)
Theorem popup_content_image_link (image_link description name : string) :
  image_link <> EmptyString -> ~ In dq (list_ascii_of_string image_link) ->
  extract_image_link (popup_content image_link description name)
  = Some image_link.
Proof.
  intros Hne Hq. unfold popup_content.
  destruct image_link as [| c u] eqn:E; [congruence |]. rewrite <- E.
  rewrite !str_app_assoc.
  apply img_match_at_extract, img_match_at_link; subst; assumption.
Qed.


Lemma rfind_from_above (c : ascii) (s : string) :
  forall i acc, (acc < Z.of_nat i)%Z -> (acc <= rfind_from c s i acc)%Z.
Proof.
  induction s as [| a s IH]; intros i acc H; simpl; [lia |].
  destruct (Ascii.eqb a c).
  - specialize (IH (S i) (Z.of_nat i) ltac:(lia)). lia.
  - apply IH. lia.
Qed.

Lemma rfind_from_ge (c : ascii) (s : string) :
  forall i acc j, (acc < Z.of_nat i)%Z -> String.get j s = Some c ->
  (Z.of_nat (i + j) <= rfind_from c s i acc)%Z.
Proof.
  induction s as [| a s IH]; intros i acc j H Hj; [discriminate |].
  destruct j as [| j]; simpl in Hj |- *.
  - injection Hj as ->. rewrite Ascii.eqb_refl.
    pose proof (rfind_from_above c s (S i) (Z.of_nat i) ltac:(lia)). lia.
  - replace (i + S j) with (S i + j) by lia.
    apply IH; [| exact Hj]. destruct (Ascii.eqb a c); lia.
Qed.

Lemma rfind_from_spec (c : ascii) (s : string) :
  forall i acc,
  (rfind_from c s i acc = acc /\ ~ In c (list_ascii_of_string s)) \/
  exists a b, s = (a ++ String c b)%string /\
    ~ In c (list_ascii_of_string b) /\
    rfind_from c s i acc = Z.of_nat (i + String.length a).
Proof.
  induction s as [| x s IH]; intros i acc; simpl; [left; auto |].
  destruct (IH (S i) (if Ascii.eqb x c then Z.of_nat i else acc))
    as [[Hr Hn] | [a [b [Hs [Hb Hr]]]]].
  - rewrite Hr. destruct (Ascii.eqb x c) eqn:E.
    + apply Ascii.eqb_eq in E; subst x. right. exists EmptyString, s.
      repeat split; auto; lia.
    + left. split; [reflexivity |]. intros [Hx | Hx]; [| tauto].
      subst x. rewrite Ascii.eqb_refl in E. discriminate.
  - right. exists (String x a), b. rewrite Hr, Hs. repeat split; auto; simpl; try lia.
Qed.

Lemma get_app_r (a s : string) (n : nat) :
  String.get (String.length a + n) (a ++ s) = String.get n s.
Proof. induction a as [| c a IH]; simpl; auto. Qed.

Lemma In_get (c : ascii) (s : string) :
  In c (list_ascii_of_string s) -> exists k, String.get k s = Some c.
Proof.
  induction s as [| x s IH]; simpl; [tauto |]. intros [-> | H].
  - exists 0. reflexivity.
  - destruct (IH H) as [k Hk]. exists (S k). exact Hk.
Qed.

Lemma substring_prefix (a s : string) :
  substring 0 (String.length a) (a ++ s) = a.
Proof. induction a as [| c a IH]; simpl; [destruct s | rewrite IH]; reflexivity. Qed.

(** The two results of [splitext]: no extension, or the last dot and what
    follows it, with neither a dot nor a separator after it. *)
Lemma splitext_cases (p : string) :
  splitext p = (p, EmptyString) \/
  exists root b, p = (root ++ String "." b)%string /\
    ~ In "."%char (list_ascii_of_string b) /\
    ~ In "/"%char (list_ascii_of_string b) /\
    splitext p = (root, String "." b).
Proof.
  unfold splitext.
  destruct (rfind "/" p <? rfind "." p)%Z eqn:Hlt; [| left; reflexivity].
  apply Z.ltb_lt in Hlt.
  assert (Hsep : (-1 <= rfind "/" p)%Z)
    by (apply rfind_from_above; simpl; lia).
  destruct (rfind_from_spec "." p 0 (-1)) as [[Hr _] | [a [b [Hp [Hb Hr]]]]];
    fold (rfind "." p) in Hr; [lia |].
  rewrite Hr. simpl (0 + String.length a). rewrite Nat2Z.id.
  destruct (skip_leading_dots _ _ _ _); [right | left; reflexivity].
  exists a, b. split; [exact Hp | split; [exact Hb | split]].
  - intros Hin. apply In_get in Hin as [k Hk].
    rewrite <- (get_app_r (String "." EmptyString) b k) in Hk.
    rewrite <- (get_app_r a (String "." b)) in Hk. rewrite <- Hp in Hk.
    pose proof (rfind_from_ge "/" p 0 (-1) _ ltac:(simpl; lia) Hk).
    fold (rfind "/" p) in H. rewrite Hr in Hlt. simpl in H. lia.
  - rewrite Hp, substring_prefix, str_length_app.
    replace (String.length a + String.length (String "." b) - String.length a)
      with (String.length (String "." b)) by lia.
    rewrite substring_app. reflexivity.
Qed.

(** [os.path.splitext]: root and extension concatenate back to the path,
    and the extension is empty or a dot followed by text with neither a
    dot nor a path separator. *)
Theorem splitext_root_ext (p : string) :
  (fst (splitext p) ++ snd (splitext p))%string = p /\
  (snd (splitext p) = EmptyString \/
   exists b, snd (splitext p) = String "." b /\
     ~ In "."%char (list_ascii_of_string b) /\
     ~ In "/"%char (list_ascii_of_string b)).
Proof.
  destruct (splitext_cases p) as [-> | [root [b [Hp [Hd [Hs ->]]]]]]; simpl.
  - split; [apply str_app_nil | left; reflexivity].
  - split; [symmetry; exact Hp | right; exists b; auto].
Qed.

Lemma list_ascii_app (a b : string) :
  list_ascii_of_string (a ++ b) = list_ascii_of_string a ++ list_ascii_of_string b.
Proof. induction a as [| c a IH]; simpl; [| rewrite IH]; reflexivity. Qed.

Lemma ascii_lower_dot (c : ascii) : ascii_lower c = "."%char -> c = "."%char.
Proof.
  unfold ascii_lower.
  destruct ((65 <=? nat_of_ascii c) && (nat_of_ascii c <=? 90)) eqn:E;
    [| auto].
  intros H. apply andb_prop in E as [E1 E2].
  apply Nat.leb_le in E1, E2. apply (f_equal nat_of_ascii) in H.
  rewrite nat_ascii_embedding in H by lia.
  change (nat_of_ascii ".") with 46 in H. lia.
Qed.

Lemma str_lower_no_dot (s : string) :
  ~ In "."%char (list_ascii_of_string s) ->
  ~ In "."%char (list_ascii_of_string (str_lower s)).
Proof.
  induction s as [| c s IH]; simpl; [tauto |].
  intros H [Hc | Hc]; [apply ascii_lower_dot in Hc |]; tauto.
Qed.

Lemma str_lower_length (s : string) :
  String.length (str_lower s) = String.length s.
Proof. induction s as [| c s IH]; simpl; [| rewrite IH]; reflexivity. Qed.

(** Two ways of writing a string as a head, a dot and a dot-free tail
    agree on the tail. *)
Lemma last_dot_unique (x p b w : string) :
  ~ In "."%char (list_ascii_of_string b) ->
  ~ In "."%char (list_ascii_of_string w) ->
  (x ++ String "." b)%string = (p ++ String "." w)%string -> b = w.
Proof.
  intros Hb Hw. revert p.
  induction x as [| c x IH]; intros [| c' p] H; simpl in H.
  - congruence.
  - injection H as Hc Hbp. subst c' b. simpl in Hb.
    rewrite list_ascii_app in Hb. simpl in Hb.
    exfalso. apply Hb. apply in_app_iff. simpl. tauto.
  - injection H as Hc Hw'. subst c w. exfalso. apply Hw.
    rewrite list_ascii_app. apply in_app_iff. simpl. tauto.
  - injection H as _ H. apply (IH p H).
Qed.

(** A dot-free tail longer than the dot-free word [w] leaves no room for
    the suffix [.w]. *)
Lemma dot_suffix_in_head (q u p w : string) :
  ~ In "."%char (list_ascii_of_string u) ->
  (q ++ u)%string = (p ++ String "." w)%string ->
  String.length u <= String.length w.
Proof.
  intros Hu. revert p.
  induction q as [| c q IH]; intros [| c' p] H; simpl in H.
  - subst u. simpl in Hu. tauto.
  - subst u. exfalso. apply Hu. simpl.
    rewrite list_ascii_app. right. apply in_app_iff. simpl. tauto.
  - injection H as _ H. subst w. rewrite str_length_app. lia.
  - injection H as _ H. apply (IH p H).
Qed.

Lemma ends_with_dot_tail (x b w : string) :
  ~ In "."%char (list_ascii_of_string b) ->
  ~ In "."%char (list_ascii_of_string w) ->
  ends_with (String "." w) (x ++ String "." b) = String.eqb b w.
Proof.
  intros Hb Hw. destruct (String.eqb b w) eqn:E.
  - apply String.eqb_eq in E. subst w. apply ends_with_app.
  - destruct (ends_with _ _) eqn:H; [| reflexivity].
    apply ends_with_spec in H as [p Hp].
    apply String.eqb_neq in E. exfalso. apply E.
    exact (last_dot_unique x p b w Hb Hw Hp).
Qed.

Lemma ends_with_dot_free (q u w : string) :
  ~ In "."%char (list_ascii_of_string u) ->
  String.length w < String.length u ->
  ends_with (String "." w) (q ++ u) = false.
Proof.
  intros Hu Hl. destruct (ends_with _ _) eqn:H; [| reflexivity].
  apply ends_with_spec in H as [p Hp].
  pose proof (dot_suffix_in_head q u p w Hu Hp). lia.
Qed.

Ltac no_dot := simpl; intuition discriminate.

(** The reader for a path ending in a dot and a dot-free extension
    depends on that extension only. *)
Lemma route_dot_tail (x b : string) :
  ~ In "."%char (list_ascii_of_string b) ->
  route (x ++ String "." b) =
  let e := str_lower b in
  if String.eqb e "geojson" || String.eqb e "json" then ReadGeoJSON
  else if String.eqb e "kml" then ReadKML else ReadGeneric.
Proof.
  intros Hb. unfold route. rewrite str_lower_app.
  change (str_lower (String "." b)) with (String "." (str_lower b)).
  pose proof (str_lower_no_dot b Hb) as Hb'.
  rewrite !ends_with_dot_tail by (assumption || no_dot). reflexivity.
Qed.

Lemma path_join_suffix (a b : string) : exists q, path_join a b = (q ++ b)%string.
Proof.
  unfold path_join.
  destruct (String.eqb a "" || ends_with "/" a).
  - destruct b as [| c b]; [exists a; reflexivity |].
    destruct c as [[] [] [] [] [] [] [] []];
      solve [exists EmptyString; reflexivity | exists a; reflexivity].
  - destruct b as [| c b]; [exists (a ++ "/")%string; rewrite str_app_assoc; reflexivity |].
    destruct c as [[] [] [] [] [] [] [] []];
      solve [exists EmptyString; reflexivity
            | exists (a ++ "/")%string; rewrite str_app_assoc; reflexivity].
Qed.

(** [save_uploaded_file] and the loading loop of [app()]: for a uuid
    string without dots of at least 8 characters (a [uuid4] string has
    36 hexadecimal digits and dashes), the reader chosen for the saved
    file is the one its extension alone selects, case-insensitively: the
    temporary directory and the uuid never change it. *)
Theorem save_uploaded_path_route (tmp uuid file_name : string) :
  ~ In "."%char (list_ascii_of_string uuid) ->
  8 <= String.length uuid ->
  route (save_uploaded_path tmp uuid file_name)
  = route (snd (splitext file_name)).
Proof.
  intros Hu Hl. unfold save_uploaded_path.
  destruct (splitext file_name) as [root ext] eqn:Hs. simpl snd.
  destruct (path_join_suffix tmp (uuid ++ ext)) as [q ->].
  destruct (splitext_cases file_name) as [Hc | [r [b [_ [Hb [_ Hc]]]]]];
    rewrite Hs in Hc; injection Hc as _ ->.
  - rewrite str_app_nil. unfold route. rewrite str_lower_app.
    pose proof (str_lower_no_dot uuid Hu) as Hu'.
    rewrite !ends_with_dot_free
      by (assumption || (rewrite str_lower_length; simpl; lia)).
    reflexivity.
  - rewrite <- str_app_assoc, route_dot_tail by exact Hb.
    change (String "." b) with (EmptyString ++ String "." b)%string.
    rewrite route_dot_tail by exact Hb. reflexivity.
Qed.

End UploadExtras.

Section VectorPageFacts.

Variable gdf : Type.
Variable load : reader -> string -> list Byte.byte -> string + gdf.
Variable tmp : string.
Variable centroid : list gdf -> string + unit.

Local Open Scope nat_scope.

Lemma load_loop_spec (data : list uploaded) :
  forall all_gdfs errors,
  load_loop gdf load tmp data all_gdfs errors =
  (all_gdfs ++ flat_map (upload_layers gdf load tmp) data,
   errors ++ flat_map (upload_errors gdf load tmp) data).
Proof.
  induction data as [| file rest IH]; intros g e; simpl.
  - rewrite !app_nil_r. reflexivity.
  - unfold upload_layers, upload_errors, upload_outcome.
    destruct (load _ _ _) as [err | x]; rewrite IH; simpl;
      rewrite <- !app_assoc; reflexivity.
Qed.

Lemma upload_accounting (data : list uploaded) :
  List.length (flat_map (upload_layers gdf load tmp) data) +
  List.length (flat_map (upload_errors gdf load tmp) data) = List.length data.
Proof.
  induction data as [| file rest IH]; simpl; [reflexivity |].
  rewrite !length_app. unfold upload_layers at 1, upload_errors at 1.
  destruct (upload_outcome gdf load tmp file); simpl; lia.
Qed.


End VectorPageFacts.


(** ** Instances of the facts above *)

Module ExtraChecks.

Import Scenario.

(** The stored video whose fourth read fails: three frames are shown and
    the capture is released once. *)
Lemma play_read_failure_silent_witness :
  let r := play unit eng_ok flaky_world no_youtube (SrcStored "Tower")
                (2 # 5) (false, None) tt in
  r_exit r = ExitBreak /\ r_diags r = [] /\
  ls_emitted (r_state r) = resized (firstn 3 ten_frames) /\
  ls_requests (r_state r) = map (request_for (2 # 5) false None)
                                (firstn 3 ten_frames) /\
  cap_releases (ls_cap (r_state r)) = 1%nat /\
  cap_items (ls_cap (r_state r)) = map RFrame (skipn 3 ten_frames).
Proof.
  apply (play_read_failure_silent unit eng_ok flaky_world no_youtube
           (SrcStored "Tower") (DPath "videos/tower.mp4")
           (firstn 3 ten_frames) (map RFrame (skipn 3 ten_frames))
           (2 # 5) false None tt (resized (firstn 3 ten_frames)) tt);
    vm_compute; reflexivity.
Defined.

(** The webcam, which this world cannot open. *)
Lemma play_unopened_silent_witness :
  let r := play unit eng_ok stored_world no_youtube SrcWebcam
                (2 # 5) (true, bytetrack) tt in
  r_opened r = false /\ r_exit r = ExitCond /\ r_diags r = [] /\
  ls_iters (r_state r) = 0%nat /\ ls_emitted (r_state r) = [] /\
  ls_requests (r_state r) = [] /\ cap_releases (ls_cap (r_state r)) = 0%nat.
Proof.
  apply (play_unopened_silent unit eng_ok stored_world no_youtube SrcWebcam
           (DIndex WEBCAM_PATH) (2 # 5) true bytetrack tt);
    vm_compute; reflexivity.
Defined.

(** A YouTube URL on which pytubefix raises. *)
Lemma play_youtube_unresolved_witness :
  let r := play unit eng_ok stored_world yt_raises
                (SrcYoutube "https://youtu.be/abc") (2 # 5) (false, None) tt in
  exists e,
    r_exit r = ExitRaise e /\
    r_diags r = [("Error loading video: " ++ e)%string] /\
    (yt_raises "https://youtu.be/abc" = inr None -> e = none_url_error) /\
    r_opened r = false /\ ls_emitted (r_state r) = [] /\
    ls_requests (r_state r) = [].
Proof.
  apply (play_youtube_unresolved unit eng_ok stored_world yt_raises
           "https://youtu.be/abc" (2 # 5) false None tt).
  vm_compute. exact I.
Defined.

(** An upper-case JPEG name. *)
Lemma has_image_ext_any_case_witness :
  has_image_ext ("photos/IMG_0042" ++ ".JPG") = true.
Proof.
  apply (has_image_ext_any_case "photos/IMG_0042" ".JPG").
  vm_compute. tauto.
Defined.

(** The link of a marker popup, read back from the popup. *)
Lemma extract_image_link_sound_witness :
  demo_link <> EmptyString /\ ~ In dq (list_ascii_of_string demo_link) /\
  exists before after,
    popup_content demo_link "Rotten pole" "Tower 7" =
    (before ++ img_open ++ demo_link ++ dqs ++ after)%string.
Proof.
  apply (extract_image_link_sound
           (popup_content demo_link "Rotten pole" "Tower 7") demo_link).
  vm_compute. reflexivity.
Defined.

(** Two image tags after plain text: the first one is returned. *)
Lemma extract_image_link_first_witness :
  extract_image_link
    ("Pole 7 " ++ img_open ++ demo_link ++ dqs ++
     (" /><img src=" ++ dqs ++ "http://example.org/b.png" ++ dqs ++ ">"))
  = Some demo_link.
Proof.
  apply (extract_image_link_first "Pole 7 " demo_link
           (" /><img src=" ++ dqs ++ "http://example.org/b.png" ++ dqs ++ ">")).
  - vm_compute. intuition discriminate.
  - discriminate.
  - vm_compute. intuition discriminate.
Defined.

(** A popup whose description holds an image tag of its own. *)
Lemma popup_content_image_link_witness :
  extract_image_link
    (popup_content demo_link ("<img src=" ++ dqs ++ "x.png" ++ dqs ++ ">")
                   "Tower 7")
  = Some demo_link.
Proof.
  apply (popup_content_image_link demo_link
           ("<img src=" ++ dqs ++ "x.png" ++ dqs ++ ">") "Tower 7").
  - discriminate.
  - vm_compute. intuition discriminate.
Defined.

(** A GeoJSON upload with an upper-case extension, saved under /tmp. *)
Lemma save_uploaded_path_route_witness :
  route (save_uploaded_path "/tmp" upload_uuid "Roads.GeoJSON")
  = route (snd (splitext "Roads.GeoJSON")).
Proof.
  apply (save_uploaded_path_route "/tmp" upload_uuid "Roads.GeoJSON").
  - vm_compute. intuition discriminate.
  - vm_compute. lia.
Defined.


End ExtraChecks.
